(** * cava_filter: frame scheduling and sample accounting

    A shallow embedding of [src/cava_filter.cpp] (class [CavaFilter]):
    the frame exec plan computed at the top of [generate_spectrum_file],
    the per-exec read length resolver, the read / analyse / accumulate
    loop with its two exits, and [print_freq_vals_line].

    Numbers.  C++ [int] values are integers of [Z], for runs in which the
    [int] computations stay in range (C++ leaves their overflow undefined);
    the [size_t] variable [read_len] is kept in [Z] with its reduction
    modulo [2^64] written out.  C++ [double] values are rationals of [Q]
    and every operation on them is exact: the rounding of the floating
    point unit is not part of this model.  On the concrete inputs evaluated
    below that rounding changes none of the integers and comparisons the
    program computes.

    Memory.  The sample buffers and the bar vectors are lists.  Whether a
    read length fits the allocated buffers, and whether an index lies
    within [frame_bars], are stated as properties of the lengths and
    indices the program computes.

    Parameters: the inside of the spectrum engine; [getopt] and the
    readers of numbers of the command line.  The header line of the option
    [-F], the loop over the options and the scheduler of the earlier
    [main] come after the model of the loop. *)

From Stdlib Require Import ZArith QArith Qround Lqa Lia List Bool.
From Stdlib Require Strings.String Strings.Ascii.
Import ListNotations.

Local Open Scope Z_scope.

(** ** Conversions between the numeric types *)

Module Num.

(** [(int) d] for a double [d]: the fractional part is discarded, which
    rounds toward zero. *)
Definition double_to_int (d : Q) : Z := Z.quot (Qnum d) (Zpos (Qden d)).

(** [modf(d, &intpart)]: the fractional part, with the sign of [d]. *)
Definition modf (d : Q) : Q := (d - inject_Z (double_to_int d))%Q.

(** Conversion of an integer to [size_t] (64 bits, unsigned). *)
Definition to_size_t (z : Z) : Z := z mod 2 ^ 64.

(** Conversion of a [size_t] to [int] (32 bits, two's complement). *)
Definition to_int (z : Z) : Z := (z + 2 ^ 31) mod 2 ^ 32 - 2 ^ 31.

(** A C++ [bool] used as an integer. *)
Definition of_bool (b : bool) : Z := if b then 1 else 0.

End Num.

(** ** Run configuration: the data members of [CavaFilter] *)

Record config : Type := Config {
  rate : Z;
  channels : Z;
  framerate : Q;
  bars_per_channel : Z;
  channels_out : Z
}.

Definition input_len_per_channel : Z := 4096.

(** The checks of [process_command_line] on the options the scheduler and
    the printer use ([-R], [-C], [-f], [-b], [-S]). *)
Definition valid_config (c : config) : Prop :=
  1 <= rate c /\
  (channels c = 1 \/ channels c = 2) /\
  (0 < framerate c)%Q /\
  2 <= bars_per_channel c <= 200 /\
  (channels_out c = 1 \/ channels_out c = 2).

(** The defaults of the class: 44100 Hz, stereo, 10 bars, 25 frames a second. *)
Definition default_config : config :=
  Config 44100 2 (25 # 1) 10 1.

(** ** Frame exec plan (the locals computed before the loop) *)

Definition input_len (c : config) : Z := input_len_per_channel * channels c.

Definition bars_total (c : config) : Z := bars_per_channel c * channels c.

Definition samples_per_frame (c : config) : Q :=
  (inject_Z (rate c * channels c) / framerate c)%Q.

Definition execs_per_frame (c : config) : Z :=
  Qceiling ((samples_per_frame c + inject_Z (channels c)) / inject_Z (input_len c)).

Definition samples_per_exec (c : config) : Z :=
  Num.double_to_int (samples_per_frame c / inject_Z (execs_per_frame c)).

Definition samples_remainder (c : config) : Z :=
  Num.double_to_int
    (samples_per_frame c - inject_Z (execs_per_frame c * samples_per_exec c)).

Definition sample_fraction_per_frame (c : config) : Q :=
  Num.modf (samples_per_frame c).

(** ** Per-exec read length resolver *)

(** [bool is_odd(int num) { return num % 2; }] *)
Definition is_odd (num : Z) : bool := negb (Z.rem num 2 =? 0).

(** [size_t read_len = samples_per_exec + (read_idx < samples_remainder);] *)
Definition base_read_len (c : config) (read_idx : Z) : Z :=
  Num.to_size_t (samples_per_exec c + Num.of_bool (read_idx <? samples_remainder c)).

(** [const int offset = is_odd(read_idx) ? -1 : 1;] *)
Definition parity_offset (read_idx : Z) : Z :=
  if is_odd read_idx then -1 else 1.

(** The stereo block: the pair is (read_len, current_accumulated_sample_fractions). *)
Definition parity_correct (c : config) (read_idx : Z) (s : Z * Q) : Z * Q :=
  let '(read_len, acc) := s in
  if (channels c =? 2) && is_odd (Num.to_int read_len) then
    let offset := parity_offset read_idx in
    (Num.to_size_t (read_len + offset), (acc - inject_Z offset)%Q)
  else (read_len, acc).

(** The last-exec block: add the frame's fraction, and release a whole
    sample per channel once the balance has reached [channels]. *)
Definition carry_inject (c : config) (read_idx : Z) (s : Z * Q) : Z * Q :=
  let '(read_len, acc) := s in
  if read_idx =? execs_per_frame c - 1 then
    let acc1 := (acc + sample_fraction_per_frame c)%Q in
    if Qle_bool (inject_Z (channels c)) acc1 then
      (Num.to_size_t (read_len + channels c), (acc1 - inject_Z (channels c))%Q)
    else (read_len, acc1)
  else (read_len, acc).

(** The read length of exec [read_idx] and the balance it leaves. *)
Definition resolve_read_len (c : config) (read_idx : Z) (acc : Q) : Z * Q :=
  carry_inject c read_idx (parity_correct c read_idx (base_read_len c read_idx, acc)).

(** ** The input stream *)

(** A [FILE] open for reading: the samples still to come, whether the
    stream breaks with an I/O error (rather than ending) once they are used
    up, and the error indicator [ferror] reports. *)
Record FILE : Type := MkFILE {
  data : list Z;
  fault : bool;
  error_indicator : bool
}.

(** [fread(buf, sizeof(int16_t), n, f)]: the samples delivered and the
    stream afterwards.  A request the stream cannot fill delivers what is
    left, and raises the error indicator when the stream is faulty. *)
Definition fread (n : Z) (f : FILE) : list Z * FILE :=
  if n <=? Z.of_nat (length (data f)) then
    (firstn (Z.to_nat n) (data f),
     MkFILE (skipn (Z.to_nat n) (data f)) (fault f) (error_indicator f))
  else
    (data f, MkFILE [] (fault f) (error_indicator f || fault f)).

Definition ferror (f : FILE) : bool := error_indicator f.

(** Modelled from the spec: the [Status] class of [utils.hpp] is not among
    the sources.  A default constructed status is a success, and
    [set_error] turns it into a failure that is surfaced to the caller. *)
Inductive Status : Type := StatOk | StatError.

(** ** The frame accumulator and the output line *)

Definition Qsum (l : list Q) : Q := fold_right Qplus 0%Q l.

(** [for (bar_idx ...) frame_bars[bar_idx] = 0;] *)
Definition clear_bars (c : config) : list Q :=
  repeat 0%Q (Z.to_nat (bars_total c)).

(** [for (bar_idx ...) frame_bars[bar_idx] += cava_out[bar_idx] / execs_per_frame;] *)
Definition add_weighted (c : config) (frame_bars cava_out : list Q) : list Q :=
  map (fun bar_idx =>
         (nth bar_idx frame_bars 0 + nth bar_idx cava_out 0 / inject_Z (execs_per_frame c))%Q)
      (seq 0 (Z.to_nat (bars_total c))).

(** The weight an exec's output receives in the frame accumulator. *)
Definition exec_weight (c : config) : Q := (1 / inject_Z (execs_per_frame c))%Q.

(** The indices at which [print_freq_vals_line] reads [frame_bars] for
    output position [i]. *)
Definition bar_indices (c : config) (i : nat) : list nat :=
  if channels_out c =? 2 then [i]
  else [i; (i + Z.to_nat (bars_per_channel c))%nat].

Definition num_bars_out (c : config) : Z := bars_per_channel c * channels_out c.

Definition accessed_indices (c : config) : list nat :=
  flat_map (bar_indices c) (seq 0 (Z.to_nat (num_bars_out c))).

(** [bar_ht] of the loop body.  A read past the end of the vector has no
    defined value: it is [None]. *)
Definition bar_ht (c : config) (frame_bars : list Q) (i : nat) : option Q :=
  if channels_out c =? 2 then nth_error frame_bars i
  else
    match nth_error frame_bars i,
          nth_error frame_bars (i + Z.to_nat (bars_per_channel c)) with
    | Some l, Some r => Some ((l + r) / 2)%Q
    | _, _ => None
    end.

(** The integers of one output line, [(int)bar_ht] for each position. *)
Definition print_freq_vals_line (c : config) (frame_bars : list Q)
  : list (option Z) :=
  map (fun i => option_map Num.double_to_int (bar_ht c frame_bars i))
      (seq 0 (Z.to_nat (num_bars_out c))).

(** ** The read / analyse / accumulate loop *)

(** What one pass of the inner loop did: the length it asked [fread] for,
    the number of samples it got, the error indicator afterwards, and the
    bar values of the engine when the engine was run. *)
Record exec_event : Type := ExecEvent {
  requested : Z;
  actual : Z;
  ferror_after : bool;
  engine_out : option (list Q)
}.

(** What one pass of the outer loop did: its execs, the accumulator it
    ended with, and the line it wrote, if any. *)
Record frame_record : Type := FrameRecord {
  execs : list exec_event;
  bars : list Q;
  emitted : option (list (option Z))
}.

Definition full_read (e : exec_event) : Prop := actual e = requested e.
Definition short_read (e : exec_event) : Prop := actual e < requested e.

Section Loop.

(** The spectrum engine is a collaborator: its state (the [cava_plan]) and
    [cava_execute], from the decoded samples and the state to the bar
    values and the next state. *)
Variable engine : Type.
Variable cava_execute : list Q -> engine -> list Q * engine.

Variable c : config.

(** The variables of [generate_spectrum_file] that the loops change. *)
Record state : Type := State {
  current_accumulated_sample_fractions : Q;
  in_file : FILE;
  plan : engine;
  frame_bars : list Q;
  finished : bool;
  stat : Status;
  exec_log : list exec_event
}.

(** The body of the inner [for] loop, up to its [break]. *)
Definition exec_body (read_idx : Z) (st : state) : state :=
  let '(read_len, acc) :=
    resolve_read_len c read_idx (current_accumulated_sample_fractions st) in
  let '(buf, f) := fread read_len (in_file st) in
  let actual_num_read := Z.of_nat (length buf) in
  if actual_num_read <? read_len then
    State acc f (plan st) (frame_bars st) true
          (if ferror f then StatError else stat st)
          (exec_log st ++ [ExecEvent read_len actual_num_read (ferror f) None])
  else
    let cava_in := map inject_Z buf in
    let '(cava_out, p) := cava_execute cava_in (plan st) in
    State acc f p (add_weighted c (frame_bars st) cava_out) (finished st) (stat st)
          (exec_log st ++
             [ExecEvent read_len actual_num_read (ferror f) (Some cava_out)]).

(** [for (read_idx = ...; read_idx < execs_per_frame; read_idx++)], with
    [todo] passes left. *)
Fixpoint exec_loop (todo : nat) (read_idx : Z) (st : state) : state :=
  match todo with
  | O => st
  | S k =>
      let st1 := exec_body read_idx st in
      if finished st1 then st1 else exec_loop k (read_idx + 1) st1
  end.

(** One pass of the [while] loop up to the test of [finished]. *)
Definition frame_execs (st : state) : state :=
  exec_loop (Z.to_nat (execs_per_frame c)) 0
    (State (current_accumulated_sample_fractions st) (in_file st) (plan st)
           (clear_bars c) (finished st) (stat st) []).

(** [while (!finished)]: the frames are logged in order.  The loop has no
    bound in the source; [fuel] bounds the number of passes here, and
    [generate_returns] below shows that some bound always suffices. *)
Fixpoint frame_loop (fuel : nat) (st : state) (frames : list frame_record)
  : option (state * list frame_record) :=
  match fuel with
  | O => None
  | S n =>
      let st1 := frame_execs st in
      if finished st1 then
        Some (st1, frames ++ [FrameRecord (exec_log st1) (frame_bars st1) None])
      else
        frame_loop n st1
          (frames ++ [FrameRecord (exec_log st1) (frame_bars st1)
                        (Some (print_freq_vals_line c (frame_bars st1)))])
  end.

(** [generate_spectrum_file], from the opened input and the initialised
    engine: the status returned and the log of the frames. *)
Definition generate_spectrum_file (fuel : nat) (f : FILE) (p : engine)
  : option (Status * list frame_record) :=
  match frame_loop fuel (State 0%Q f p (clear_bars c) false StatOk []) [] with
  | Some (st, frames) => Some (stat st, frames)
  | None => None
  end.

End Loop.

Arguments State {engine}.
Arguments current_accumulated_sample_fractions {engine}.
Arguments in_file {engine}.
Arguments plan {engine}.
Arguments frame_bars {engine}.
Arguments finished {engine}.
Arguments stat {engine}.
Arguments exec_log {engine}.
Arguments exec_body {engine}.
Arguments exec_loop {engine}.
Arguments frame_execs {engine}.
Arguments frame_loop {engine}.
Arguments generate_spectrum_file {engine}.

(** The samples the stream still holds. *)
Definition left_in {engine : Type} (st : state engine) : Z :=
  Z.of_nat (length (data (in_file st))).


(** All the reads of a run, in order. *)
Definition all_execs (frames : list frame_record) : list exec_event :=
  flat_map execs frames.

(** An engine that hears silence: every bar is zero. *)
Definition silent_engine (c : config) (_ : list Q) (p : unit) : list Q * unit :=
  (repeat 0%Q (Z.to_nat (bars_total c)), p).

(** A stream of [n] samples of silence that ends cleanly. *)
Definition silence (n : Z) : FILE := MkFILE (repeat 0 (Z.to_nat n)) false false.


(** ** Vocabulary of the properties *)

(** The bar values an exec added to the accumulator. *)
Definition out_of (e : exec_event) : list Q :=
  match engine_out e with Some o => o | None => [] end.

(** The accumulator entry [b] that the execs [evs] build with the weight
    [exec_weight] each. *)
Definition weighted_sum (c : config) (b : nat) (evs : list exec_event) : Q :=
  Qsum (map (fun e => (exec_weight c * nth b (out_of e) 0)%Q) evs).


(** A frame all of whose execs got the samples they asked for. *)
Definition all_full (c : config) (fr : frame_record) : Prop :=
  length (execs fr) = Z.to_nat (execs_per_frame c) /\
  Forall full_read (execs fr).

(** A frame that stopped at a short read [e], with no exec after it. *)
Definition cut_short_at (c : config) (fr : frame_record) (e : exec_event) : Prop :=
  exists fulls,
    execs fr = fulls ++ [e] /\
    Forall full_read fulls /\
    (length fulls < Z.to_nat (execs_per_frame c))%nat /\
    short_read e.

(** A read whose length is one the resolver computes. *)
Definition resolved (c : config) (e : exec_event) : Prop :=
  exists read_idx acc, requested e = fst (resolve_read_len c read_idx acc).

(** A pass of the outer loop that reached [print_freq_vals_line]. *)
Definition frame_done (c : config) (fr : frame_record) : Prop :=
  all_full c fr /\
  Forall (resolved c) (execs fr) /\
  emitted fr = Some (print_freq_vals_line c (bars fr)) /\
  forall b, (b < Z.to_nat (bars_total c))%nat ->
    (nth b (bars fr) 0 == weighted_sum c b (execs fr))%Q.

(** The pass of the outer loop that left it, and the status it leaves. *)
Definition frame_broken (c : config) (fr : frame_record) (status : Status) : Prop :=
  exists e,
    cut_short_at c fr e /\
    Forall (resolved c) (execs fr) /\
    emitted fr = None /\
    status = (if ferror_after e then StatError else StatOk).




Definition requested_total (evs : list exec_event) : Z :=
  fold_right Z.add 0 (map requested evs).


(** ** Configurations used in the examples *)

(** Stereo at 44100 Hz and 24 frames a second: 3675 samples a frame. *)
Definition config_24fps : config := Config 44100 2 (24 # 1) 10 1.

(** Stereo at 81913 Hz and 4 frames a second: 40956.5 samples a frame, read
    by five execs of base length 8191. *)
Definition config_81913 : config := Config 81913 2 (4 # 1) 10 1.

(** Mono input, the option [-C 1], everything else as by default. *)
Definition config_mono : config := Config 44100 1 (25 # 1) 10 1.

(** ** The schedule of reads *)

(** The read lengths the inner loop asks for from exec [read_idx] on when
    [todo] execs are left and every read is full, and the balance after
    them: the resolver run through the [for] loop with nothing else. *)
Fixpoint exec_schedule (c : config) (todo : nat) (read_idx : Z) (acc : Q)
  : list Z * Q :=
  match todo with
  | O => ([], acc)
  | S k =>
      let '(read_len, acc1) := resolve_read_len c read_idx acc in
      let '(rest, acc2) := exec_schedule c k (read_idx + 1) acc1 in
      (read_len :: rest, acc2)
  end.



Definition Zsum (l : list Z) : Z := fold_right Z.add 0 l.







(** ** The engine fed from the stream *)


(** ** The header line *)

(** [print_freq_bands_line]: with the option [-F], one line with the
    cut-off frequency of each bar, as an integer, once for each output
    channel; nothing otherwise.  [freqs] is the array of the engine. *)
Definition print_freq_bands_line (print_freq_bands : bool) (c : config)
    (freqs : list Q) : option (list (option Z)) :=
  if print_freq_bands then
    Some (flat_map
            (fun _ : nat =>
               map (fun i => option_map Num.double_to_int (nth_error freqs i))
                   (seq 0 (Z.to_nat (bars_per_channel c))))
            (seq 0 (Z.to_nat (channels_out c))))
  else None.

(** ** The command line *)

Module CommandLine.

Import Stdlib.Strings.String Stdlib.Strings.Ascii.

(** The data members the options set.  The input is the name of a file,
    or [None] for the standard input; likewise the output. *)
Record settings : Type := Settings {
  conf : config;
  autosens : Z;
  noise_reduction : Q;
  print_freq_bands : bool;
  cutoffs : list Z;
  in_file_name : option string;
  out_file_name : option string
}.

(** The initial values of the data members. *)
Definition default_settings : settings :=
  Settings default_config 0 (1 # 10) false [50; 10000] None None.

(** What one call of [getopt] hands to the loop. *)
Record getopt_result : Type := Getopt {
  opt : ascii;
  optopt : ascii;
  optarg : string
}.

Definition set_conf (s : settings) (c : config) : settings :=
  Settings c (autosens s) (noise_reduction s) (print_freq_bands s) (cutoffs s)
           (in_file_name s) (out_file_name s).

Section Options.

(** Modelled from the spec: [utils.hpp] and [programopts.hpp] are not
    among the sources.  [read_int], [read_double] and [read_int_list] give
    the value read, or fail, and then [print_status_or_exit] ends the
    program; [common_opts] tells whether it has dealt with the option;
    [error] ends the program; [can_read] and [can_write] tell whether
    [fopen] succeeds. *)
Variable read_int : string -> option Z.
Variable read_double : string -> option Q.
Variable read_int_list : string -> option (list Z).
Variable common_opts : ascii -> ascii -> bool.
Variable can_read : string -> bool.
Variable can_write : string -> bool.

(** The body of the [while] loop: [None] is the end of the program. *)
Definition handle_option (s : settings) (o : getopt_result) : option settings :=
  let c := conf s in
  if common_opts (opt o) (optopt o) then Some s
  else if Ascii.eqb (opt o) "b" then
    match read_int (optarg o) with
    | None => None
    | Some n =>
        if (n <? 2) || (200 <? n) then None
        else Some (set_conf s (Config (rate c) (channels c) (framerate c) n (channels_out c)))
    end
  else if Ascii.eqb (opt o) "f" then
    match read_double (optarg o) with
    | None => None
    | Some x =>
        if Qle_bool x 0 then None
        else Some (set_conf s (Config (rate c) (channels c) x (bars_per_channel c)
                                 (channels_out c)))
    end
  else if Ascii.eqb (opt o) "S" then
    Some (set_conf s (Config (rate c) (channels c) (framerate c) (bars_per_channel c) 2))
  else if Ascii.eqb (opt o) "n" then
    match read_double (optarg o) with
    | None => None
    | Some x =>
        if negb (Qle_bool 0 x) || negb (Qle_bool x 1) then None
        else Some (Settings c (autosens s) x (print_freq_bands s) (cutoffs s)
                     (in_file_name s) (out_file_name s))
    end
  else if Ascii.eqb (opt o) "a" then
    match read_int (optarg o) with
    | None => None
    | Some n =>
        if n <? 0 then None
        else Some (Settings c n (noise_reduction s) (print_freq_bands s) (cutoffs s)
                     (in_file_name s) (out_file_name s))
    end
  else if Ascii.eqb (opt o) "c" then
    match read_int_list (optarg o) with
    | None => None
    | Some l =>
        match l with
        | lo :: hi :: _ =>
            if lo <? 1 then None
            else if hi <=? lo then None
            else Some (Settings c (autosens s) (noise_reduction s) (print_freq_bands s) l
                         (in_file_name s) (out_file_name s))
        | _ => None
        end
    end
  else if Ascii.eqb (opt o) "F" then
    Some (Settings c (autosens s) (noise_reduction s) true (cutoffs s)
            (in_file_name s) (out_file_name s))
  else if Ascii.eqb (opt o) "R" then
    match read_int (optarg o) with
    | None => None
    | Some n =>
        if n <? 1 then None
        else Some (set_conf s (Config n (channels c) (framerate c) (bars_per_channel c)
                                 (channels_out c)))
    end
  else if Ascii.eqb (opt o) "C" then
    if String.eqb (optarg o) "1" then
      Some (set_conf s (Config (rate c) 1 (framerate c) (bars_per_channel c)
                          (channels_out c)))
    else if String.eqb (optarg o) "2" then
      Some (set_conf s (Config (rate c) 2 (framerate c) (bars_per_channel c)
                          (channels_out c)))
    else None
  else if Ascii.eqb (opt o) "o" then
    if String.eqb (optarg o) "-" then
      Some (Settings c (autosens s) (noise_reduction s) (print_freq_bands s) (cutoffs s)
              (in_file_name s) None)
    else if can_write (optarg o) then
      Some (Settings c (autosens s) (noise_reduction s) (print_freq_bands s) (cutoffs s)
              (in_file_name s) (Some (optarg o)))
    else None
  else None.

(** [while ((c = getopt(...)) != -1)] over the options of the command line. *)
Fixpoint process_options (s : settings) (os : list getopt_result) : option settings :=
  match os with
  | [] => Some s
  | o :: rest =>
      match handle_option s o with
      | None => None
      | Some s1 => process_options s1 rest
      end
  end.

(** [process_command_line]: the options, then the arguments that are left
    ([argv] from [optind] on). *)
Definition process_command_line (os : list getopt_result) (args : list string)
  : option settings :=
  match process_options default_settings os with
  | None => None
  | Some s =>
      if (1 <? Z.of_nat (List.length args)) then None
      else
        let file_name := match args with [] => "-"%string | a :: _ => a end in
        if String.eqb file_name "-" then
          Some (Settings (conf s) (autosens s) (noise_reduction s) (print_freq_bands s)
                  (cutoffs s) None (out_file_name s))
        else if can_read file_name then
          Some (Settings (conf s) (autosens s) (noise_reduction s) (print_freq_bands s)
                  (cutoffs s) (Some file_name) (out_file_name s))
        else None
  end.

End Options.

(** A reader of integers for the examples: it knows "16" and "1". *)
Definition example_read_int (s : string) : option Z :=
  if String.eqb s "16" then Some 16 else if String.eqb s "1" then Some 1 else None.

(** What the checks of the options establish. *)
Definition checked (s : settings) : Prop :=
  valid_config (conf s) /\
  0 <= autosens s /\
  (0 <= noise_reduction s <= 1)%Q /\
  exists lo hi rest, cutoffs s = lo :: hi :: rest /\ 1 <= lo < hi.

End CommandLine.

(** ** The earlier scheduler *)

(** The scheduler of the earlier [main] ([src/unnamed/part_001]): the
    rate is 44100 Hz, the input stereo, the block 512 samples a channel;
    a frame is a whole number of samples, read in full blocks and one
    last partial block. *)
Module Legacy.

Definition rate : Z := 44100.
Definition channels : Z := 2.
Definition input_len_per_channel : Z := 512.

(** [size_t input_len() const { return input_len_per_channel * channels; }] *)
Definition input_len : Z := Num.to_size_t (input_len_per_channel * channels).

(** [int samples_per_frame() const { return (double)(rate * channels) / framerate; }] *)
Definition samples_per_frame (framerate : Q) : Z :=
  Num.double_to_int (inject_Z (rate * channels) / framerate).

(** [int reads_per_frame = cava.samples_per_frame() / input_len;]: the
    division is one of [size_t]. *)
Definition full_reads (framerate : Q) : Z :=
  Num.to_int (Num.to_size_t (samples_per_frame framerate) / input_len).

(** [int final_input_len = cava.samples_per_frame() - reads_per_frame * input_len;] *)
Definition final_input_len (framerate : Q) : Z :=
  Num.to_int
    (Num.to_size_t
       (Num.to_size_t (samples_per_frame framerate)
        - Num.to_size_t (Num.to_size_t (full_reads framerate) * input_len))).

(** [double reads_per_frame_exact = (double)cava.samples_per_frame() / input_len;] *)
Definition reads_per_frame_exact (framerate : Q) : Q :=
  (inject_Z (samples_per_frame framerate) / inject_Z input_len)%Q.

(** [reads_per_frame = reads_per_frame + (final_input_len > 1);] *)
Definition reads_per_frame (framerate : Q) : Z :=
  full_reads framerate + Num.of_bool (1 <? final_input_len framerate).

(** The length of read [read_idx] of a frame. *)
Definition read_len (framerate : Q) (read_idx : Z) : Z :=
  if (read_idx =? reads_per_frame framerate - 1)
     && negb (final_input_len framerate =? 0)
  then Num.to_size_t (final_input_len framerate)
  else input_len.

(** [double weight = (double)(read_len) / input_len;] *)
Definition weight (framerate : Q) (read_idx : Z) : Q :=
  (inject_Z (read_len framerate read_idx) / inject_Z input_len)%Q.

(** The read lengths of a frame, in order. *)
Definition frame_reads (framerate : Q) : list Z :=
  map (fun i => read_len framerate (Z.of_nat i))
      (seq 0 (Z.to_nat (reads_per_frame framerate))).

(** The weights of the reads of a frame after the division by
    [reads_per_frame_exact] that closes the frame. *)
Definition frame_weights (framerate : Q) : list Q :=
  map (fun i => (weight framerate (Z.of_nat i) / reads_per_frame_exact framerate)%Q)
      (seq 0 (Z.to_nat (reads_per_frame framerate))).

End Legacy.

(** * Verification *)

(** ** Rounding *)

Lemma double_to_int_floor (d : Q) : (0 <= d)%Q -> Num.double_to_int d = Qfloor d.
Proof.
  destruct d as [n p]. unfold Qle, Num.double_to_int, Qfloor. simpl. intros H.
  apply Z.quot_div_nonneg; lia.
Qed.


Lemma Qfloor_bounds (x : Q) :
  (inject_Z (Qfloor x) <= x)%Q /\ (x < inject_Z (Qfloor x) + 1)%Q.
Proof.
  split; [apply Qfloor_le|].
  pose proof (Qlt_floor x) as H. rewrite inject_Z_plus in H. exact H.
Qed.

Section Plan.

Variable c : config.
Hypothesis Hvalid : valid_config c.

Lemma channels_pos : 1 <= channels c <= 2.
Proof. destruct Hvalid as (_ & [H | H] & _); lia. Qed.

Lemma input_len_pos : 4096 <= input_len c.
Proof. unfold input_len, input_len_per_channel. pose proof channels_pos. lia. Qed.

Lemma samples_per_frame_pos : (0 < samples_per_frame c)%Q.
Proof.
  destruct Hvalid as (Hr & _ & Hf & _). pose proof channels_pos as Hc.
  unfold samples_per_frame. apply Qlt_shift_div_l; [exact Hf|].
  setoid_replace (0 * framerate c)%Q with (inject_Z 0) by (unfold inject_Z; ring).
  rewrite <- Zlt_Qlt. nia.
Qed.

Lemma execs_per_frame_cover :
  (samples_per_frame c + inject_Z (channels c)
   <= inject_Z (execs_per_frame c) * inject_Z (input_len c))%Q.
Proof.
  pose proof input_len_pos as HL.
  assert (0 < inject_Z (input_len c))%Q as HLq.
  { change 0%Q with (inject_Z 0). rewrite <- Zlt_Qlt. lia. }
  unfold execs_per_frame.
  set (x := ((samples_per_frame c + inject_Z (channels c)) / inject_Z (input_len c))%Q).
  pose proof (Qle_ceiling x) as Hx.
  apply (Qmult_le_compat_r _ _ (inject_Z (input_len c))) in Hx; [|lra].
  assert (x * inject_Z (input_len c) == samples_per_frame c + inject_Z (channels c))%Q
    as Heq by (unfold x; field; lra).
  rewrite Heq in Hx. exact Hx.
Qed.

Lemma execs_per_frame_pos : 1 <= execs_per_frame c.
Proof.
  pose proof execs_per_frame_cover as H. pose proof samples_per_frame_pos as Hs.
  pose proof channels_pos as Hc. pose proof input_len_pos as HL.
  assert (0 < inject_Z (channels c))%Q as Hcq.
  { change 0%Q with (inject_Z 0). rewrite <- Zlt_Qlt. lia. }
  rewrite <- inject_Z_mult in H.
  assert (inject_Z 0 < inject_Z (execs_per_frame c * input_len c))%Q as H0.
  { change (inject_Z 0) with 0%Q. lra. }
  rewrite <- Zlt_Qlt in H0. nia.
Qed.


Lemma execs_per_frame_Qpos : (0 < inject_Z (execs_per_frame c))%Q.
Proof.
  pose proof execs_per_frame_pos.
  change 0%Q with (inject_Z 0). rewrite <- Zlt_Qlt. lia.
Qed.

Lemma samples_per_exec_floor :
  samples_per_exec c = Qfloor (samples_per_frame c / inject_Z (execs_per_frame c)).
Proof.
  unfold samples_per_exec. apply double_to_int_floor.
  pose proof samples_per_frame_pos. pose proof execs_per_frame_Qpos.
  apply Qle_shift_div_l; lra.
Qed.

(** The base length is the integer quotient of the frame by its execs. *)
Lemma samples_per_exec_bounds :
  (inject_Z (execs_per_frame c * samples_per_exec c) <= samples_per_frame c)%Q /\
  (samples_per_frame c
   < inject_Z (execs_per_frame c * samples_per_exec c + execs_per_frame c))%Q.
Proof.
  pose proof execs_per_frame_Qpos as HE.
  rewrite samples_per_exec_floor.
  set (q := (samples_per_frame c / inject_Z (execs_per_frame c))%Q).
  assert (q * inject_Z (execs_per_frame c) == samples_per_frame c)%Q as Hq
    by (unfold q; field; lra).
  destruct (Qfloor_bounds q) as [Hlo Hhi].
  rewrite inject_Z_plus, inject_Z_mult.
  split.
  - apply (Qmult_le_compat_r _ _ (inject_Z (execs_per_frame c))) in Hlo; lra.
  - apply (Qmult_lt_compat_r _ _ (inject_Z (execs_per_frame c))) in Hhi; lra.
Qed.

Lemma samples_per_exec_nonneg : 0 <= samples_per_exec c.
Proof.
  rewrite samples_per_exec_floor.
  change 0 with (Qfloor 0). apply Qfloor_resp_le.
  pose proof samples_per_frame_pos. pose proof execs_per_frame_Qpos.
  apply Qle_shift_div_l; lra.
Qed.



(** The margin of [channels] samples in [execs_per_frame] keeps the base
    length strictly below the block size. *)
Lemma samples_per_exec_lt_input_len : samples_per_exec c < input_len c.
Proof.
  destruct samples_per_exec_bounds as [Hlo _].
  pose proof execs_per_frame_cover as Hc. pose proof execs_per_frame_pos as HE.
  pose proof channels_pos as Hch.
  rewrite <- inject_Z_mult in Hc.
  assert (inject_Z (execs_per_frame c * samples_per_exec c + channels c)
          <= inject_Z (execs_per_frame c * input_len c))%Q as H.
  { rewrite inject_Z_plus. lra. }
  rewrite <- Zle_Qle in H. nia.
Qed.



End Plan.

(** ** The resolver *)

Lemma is_odd_odd (n : Z) : is_odd n = Z.odd n.
Proof.
  unfold is_odd.
  destruct (Z.rem n 2 =? 0) eqn:Hr.
  - apply Z.eqb_eq in Hr. symmetry. apply negb_true_iff.
    rewrite Z.negb_odd. apply Z.even_spec.
    exists (Z.quot n 2). pose proof (Z.quot_rem' n 2). lia.
  - apply Z.eqb_neq in Hr. symmetry. apply Z.odd_spec.
    pose proof (Z.quot_rem' n 2) as Hq.
    pose proof (Z.rem_bound_abs n 2) as Hb.
    destruct (Z.eq_dec (Z.rem n 2) 1) as [H1 | H1].
    + exists (Z.quot n 2). lia.
    + exists (Z.quot n 2 - 1). lia.
Qed.

Lemma odd_mod2 (a b : Z) : a mod 2 = b mod 2 -> Z.odd a = Z.odd b.
Proof.
  intros H. rewrite !Zmod_odd in H.
  destruct (Z.odd a), (Z.odd b); congruence.
Qed.

Lemma odd_to_int (z : Z) : Z.odd (Num.to_int z) = Z.odd z.
Proof.
  apply odd_mod2. unfold Num.to_int.
  change (2 ^ 31) with 2147483648. change (2 ^ 32) with (2 * 2147483648).
  pose proof (Z.div_mod (z + 2147483648) (2 * 2147483648)).
  rewrite (Z.mod_eq (_ - _)), (Z.mod_eq z) by lia.
  set (q := (z + 2147483648) / (2 * 2147483648)) in *.
  set (r := (z + 2147483648) mod (2 * 2147483648)) in *.
  replace (r - 2147483648) with (z - 2 * (2147483648 * q)) by lia.
  replace (z - 2 * (2147483648 * q)) with (z + (- (2147483648 * q)) * 2) by lia.
  rewrite Z.div_add by lia. lia.
Qed.

Lemma odd_to_size_t (z : Z) : Z.odd (Num.to_size_t z) = Z.odd z.
Proof.
  apply odd_mod2. unfold Num.to_size_t.
  change (2 ^ 64) with (2 * 9223372036854775808).
  rewrite Z.rem_mul_r by lia.
  set (h := (z / 2) mod 9223372036854775808).
  replace (z mod 2 + 2 * h) with (z mod 2 + h * 2) by lia.
  rewrite Z.mod_add by lia. apply Z.mod_mod. lia.
Qed.

Lemma to_size_t_small (z : Z) : 0 <= z < 2 ^ 64 -> Num.to_size_t z = z.
Proof. intros H. unfold Num.to_size_t. apply Z.mod_small. exact H. Qed.

Lemma odd_parity_offset (read_idx : Z) : Z.odd (parity_offset read_idx) = true.
Proof. unfold parity_offset. destruct (is_odd read_idx); reflexivity. Qed.

(** After the stereo block the length is even, whatever it was before. *)
Lemma parity_correct_even (c : config) (read_idx read_len : Z) (acc : Q) :
  channels c = 2 ->
  Z.odd (fst (parity_correct c read_idx (read_len, acc))) = false.
Proof.
  intros Hc. unfold parity_correct. rewrite Hc, is_odd_odd, odd_to_int. simpl.
  destruct (Z.odd read_len) eqn:Ho; simpl; [|exact Ho].
  rewrite odd_to_size_t, Z.odd_add, Ho, odd_parity_offset. reflexivity.
Qed.

Lemma carry_inject_parity (c : config) (read_idx read_len : Z) (acc : Q) :
  channels c = 2 ->
  Z.odd (fst (carry_inject c read_idx (read_len, acc))) = Z.odd read_len.
Proof.
  intros Hc. unfold carry_inject.
  destruct (read_idx =? execs_per_frame c - 1); [|reflexivity].
  destruct (Qle_bool _ _); [|reflexivity].
  simpl. rewrite odd_to_size_t, Z.odd_add, Hc. simpl.
  destruct (Z.odd read_len); reflexivity.
Qed.

(** With two channels the resolver only produces even lengths. *)
Lemma resolve_read_len_even (c : config) (read_idx : Z) (acc : Q) :
  channels c = 2 -> Z.even (fst (resolve_read_len c read_idx acc)) = true.
Proof.
  intros Hc. unfold resolve_read_len.
  pose proof (parity_correct_even c read_idx (base_read_len c read_idx) acc Hc) as H.
  destruct (parity_correct c read_idx (base_read_len c read_idx, acc)) as [len a].
  rewrite <- Z.negb_odd, carry_inject_parity by exact Hc.
  simpl in H. rewrite H. reflexivity.
Qed.

Lemma parity_offset_even (read_idx : Z) :
  parity_offset read_idx = if Z.even read_idx then 1 else -1.
Proof.
  unfold parity_offset. rewrite is_odd_odd, <- Z.negb_even.
  destruct (Z.even read_idx); reflexivity.
Qed.

Lemma parity_offset_succ (read_idx : Z) :
  parity_offset read_idx + parity_offset (read_idx + 1) = 0.
Proof.
  rewrite !parity_offset_even, Z.even_add. simpl.
  destruct (Z.even read_idx); reflexivity.
Qed.

Section Resolver.

Variable c : config.
Hypothesis Hvalid : valid_config c.

(** For a valid configuration the [size_t] arithmetic of the base length
    does not wrap. *)
Lemma base_read_len_eq (read_idx : Z) :
  base_read_len c read_idx =
  samples_per_exec c + Num.of_bool (read_idx <? samples_remainder c).
Proof.
  unfold base_read_len. apply to_size_t_small.
  pose proof (samples_per_exec_nonneg c Hvalid).
  pose proof (samples_per_exec_lt_input_len c Hvalid).
  pose proof (channels_pos c Hvalid).
  unfold input_len, input_len_per_channel in *.
  change (2 ^ 64) with 18446744073709551616.
  destruct (read_idx <? samples_remainder c); simpl; lia.
Qed.

Lemma base_read_len_range (read_idx : Z) :
  0 <= base_read_len c read_idx <= input_len c.
Proof.
  rewrite base_read_len_eq.
  pose proof (samples_per_exec_nonneg c Hvalid).
  pose proof (samples_per_exec_lt_input_len c Hvalid).
  destruct (read_idx <? samples_remainder c); simpl; lia.
Qed.

(** The execs of odd base length are next to each other: they are the
    first [samples_remainder] ones or all the others. *)
Lemma odd_base_contiguous (i k j : Z) :
  i < k < j ->
  Z.odd (base_read_len c i) = true ->
  Z.odd (base_read_len c j) = true ->
  Z.odd (base_read_len c k) = true.
Proof.
  rewrite !base_read_len_eq. intros Hk Hi Hj.
  destruct (i <? samples_remainder c) eqn:Ei,
           (j <? samples_remainder c) eqn:Ej,
           (k <? samples_remainder c) eqn:Ek;
    simpl in *; try assumption;
    rewrite ?Z.add_0_r in *; rewrite ?Z.odd_add in *; simpl in *;
    try (rewrite ?Z.ltb_lt, ?Z.ltb_ge in *; lia);
    destruct (Z.odd (samples_per_exec c)); simpl in *; congruence.
Qed.

Lemma parity_correct_odd (read_idx : Z) (acc : Q) :
  channels c = 2 ->
  Z.odd (base_read_len c read_idx) = true ->
  parity_correct c read_idx (base_read_len c read_idx, acc) =
  (base_read_len c read_idx + parity_offset read_idx,
   (acc - inject_Z (parity_offset read_idx))%Q).
Proof.
  intros Hc Ho. unfold parity_correct.
  rewrite Hc, is_odd_odd, odd_to_int, Ho. simpl.
  rewrite to_size_t_small; [reflexivity|].
  pose proof (base_read_len_range read_idx) as Hr.
  assert (base_read_len c read_idx <> 0) by (intros E; rewrite E in Ho; discriminate).
  unfold input_len, input_len_per_channel in Hr. rewrite Hc in Hr.
  change (2 ^ 64) with 18446744073709551616.
  rewrite parity_offset_even. destruct (Z.even read_idx); lia.
Qed.


End Resolver.

(** ** One exec *)

Lemma to_size_t_nonneg (z : Z) : 0 <= Num.to_size_t z.
Proof. unfold Num.to_size_t. apply Z.mod_pos_bound. reflexivity. Qed.

Lemma resolve_read_len_nonneg (c : config) (read_idx : Z) (acc : Q) :
  0 <= fst (resolve_read_len c read_idx acc).
Proof.
  unfold resolve_read_len, carry_inject, parity_correct, base_read_len.
  destruct (_ && _); destruct (_ =? _); try destruct (Qle_bool _ _);
    simpl; apply to_size_t_nonneg.
Qed.

Section LoopFacts.

Variable engine : Type.
Variable cava_execute : list Q -> engine -> list Q * engine.
Variable c : config.

(** The two ways through the body of the inner loop: the read is full, the
    engine runs and its bars are added; or the read is short and the loop
    is marked finished, with the status following the error indicator. *)
Lemma exec_body_spec (read_idx : Z) (st : state engine) :
  let r := resolve_read_len c read_idx (current_accumulated_sample_fractions st) in
  let st1 := exec_body cava_execute c read_idx st in
  current_accumulated_sample_fractions st1 = snd r /\
  ((fst r <= left_in st /\
    finished st1 = finished st /\ stat st1 = stat st /\
    left_in st1 = left_in st - fst r /\
    exists out,
      exec_log st1 =
        exec_log st ++ [ExecEvent (fst r) (fst r) (ferror (in_file st1)) (Some out)] /\
      frame_bars st1 = add_weighted c (frame_bars st) out)
   \/
   (left_in st < fst r /\
    finished st1 = true /\
    stat st1 = (if ferror (in_file st1) then StatError else stat st) /\
    frame_bars st1 = frame_bars st /\
    exec_log st1 =
      exec_log st ++ [ExecEvent (fst r) (left_in st) (ferror (in_file st1)) None])).
Proof.
  intros r st1. subst r st1. unfold exec_body, left_in.
  pose proof (resolve_read_len_nonneg c read_idx (current_accumulated_sample_fractions st)) as Hnn.
  destruct (resolve_read_len c read_idx (current_accumulated_sample_fractions st)) as [read_len acc]. simpl in Hnn.
  unfold fread.
  destruct (read_len <=? Z.of_nat (length (data (in_file st)))) eqn:Hle.
  - apply Z.leb_le in Hle.
    assert (Z.of_nat (length (firstn (Z.to_nat read_len) (data (in_file st)))) = read_len)
      as Hlen by (rewrite length_firstn; lia).
    rewrite Hlen, Z.ltb_irrefl.
    destruct (cava_execute _ _) as [cava_out p]. simpl.
    split; [reflexivity|]. left.
    repeat split; try assumption.
    + rewrite length_skipn. lia.
    + exists cava_out. split; reflexivity.
  - apply Z.leb_gt in Hle.
    destruct (Z.ltb_spec (Z.of_nat (length (data (in_file st)))) read_len) as [_ | Hge];
      [|lia].
    simpl. split; [reflexivity|]. right.
    repeat split; assumption.
Qed.

(** ** One frame *)

Lemma nth_map_seq (f : nat -> Q) (n b : nat) :
  (b < n)%nat -> nth b (map f (seq 0 n)) 0%Q = f b.
Proof.
  intros Hb. rewrite (nth_indep _ 0%Q (f 0%nat)) by (rewrite length_map, length_seq; exact Hb).
  rewrite map_nth, seq_nth by exact Hb. reflexivity.
Qed.

Lemma add_weighted_nth (fb out : list Q) (b : nat) :
  (b < Z.to_nat (bars_total c))%nat ->
  (nth b (add_weighted c fb out) 0 == nth b fb 0 + exec_weight c * nth b out 0)%Q.
Proof.
  intros Hb. unfold add_weighted. rewrite nth_map_seq by exact Hb.
  unfold exec_weight, Qdiv. ring.
Qed.

Lemma weighted_sum_cons (b : nat) (e : exec_event) (evs : list exec_event) :
  weighted_sum c b (e :: evs) =
  (exec_weight c * nth b (out_of e) 0 + weighted_sum c b evs)%Q.
Proof. reflexivity. Qed.

Lemma weighted_sum_nil (b : nat) : weighted_sum c b [] = 0%Q.
Proof. reflexivity. Qed.

(** The inner loop run for [todo] execs.  Either all of them were full
    reads, and the accumulator gained the weighted bars of each; or the
    loop stopped at the first short read, which is the last entry of the
    log, and the status is the answer of [ferror] there. *)
Lemma exec_loop_spec (todo : nat) :
  forall (read_idx : Z) (st : state engine),
    finished st = false ->
    let st1 := exec_loop cava_execute c todo read_idx st in
    exists new,
      exec_log st1 = exec_log st ++ new /\
      Forall (resolved c) new /\
      ((finished st1 = false /\
        length new = todo /\
        Forall full_read new /\
        stat st1 = stat st /\
        forall b, (b < Z.to_nat (bars_total c))%nat ->
          (nth b (frame_bars st1) 0 == nth b (frame_bars st) 0 + weighted_sum c b new)%Q)
       \/
       (finished st1 = true /\
        exists fulls e,
          new = fulls ++ [e] /\
          (length fulls < todo)%nat /\
          Forall full_read fulls /\
          short_read e /\
          ferror_after e = ferror (in_file st1) /\
          stat st1 = (if ferror_after e then StatError else stat st))).
Proof.
  induction todo as [|k IH]; intros read_idx st Hfin; simpl.
  - exists []. rewrite app_nil_r. repeat split; auto.
    left. repeat split; auto.
    intros b _. rewrite weighted_sum_nil. ring.
  - destruct (exec_body_spec read_idx st) as [_ [Hfull | Hshort]].
    + destruct Hfull as (_ & Hf1 & Hs1 & _ & out & Hlog1 & Hbars1).
      set (st1 := exec_body cava_execute c read_idx st) in *.
      rewrite Hfin in Hf1. rewrite Hf1.
      set (e1 := ExecEvent _ _ _ _) in Hlog1.
      destruct (IH (read_idx + 1) st1 Hf1) as (new & Hlog & Hres & Hcases).
      exists (e1 :: new). split; [|split].
      * rewrite Hlog, Hlog1, <- app_assoc. reflexivity.
      * constructor; [|exact Hres]. eexists _, _. reflexivity.
      * destruct Hcases as [(Hf & Hlen & Hall & Hst & Hb) | (Hf & fulls & e & Hn & Hlen & Hall & Hsh & Hfe & Hst)].
        -- left. repeat split; auto.
           ++ simpl. congruence.
           ++ constructor; [reflexivity | exact Hall].
           ++ congruence.
           ++ intros b Hlt. rewrite (Hb b Hlt), Hbars1, add_weighted_nth by exact Hlt.
              rewrite weighted_sum_cons. change (out_of e1) with out. ring.
        -- right. split; [exact Hf|]. exists (e1 :: fulls), e.
           repeat split; auto.
           ++ rewrite Hn. reflexivity.
           ++ simpl. lia.
           ++ constructor; [reflexivity | exact Hall].
           ++ rewrite Hst, Hs1. reflexivity.
    + destruct Hshort as (Hlt & Hf1 & Hs1 & _ & Hlog1).
      set (st1 := exec_body cava_execute c read_idx st) in *.
      rewrite Hf1.
      set (e1 := ExecEvent _ _ _ _) in Hlog1.
      exists [e1]. split; [exact Hlog1|]. split.
      * constructor; [|constructor]. eexists _, _. reflexivity.
      * right. split; [exact Hf1|]. exists [], e1.
        repeat split; auto. simpl. lia.
Qed.

End LoopFacts.

(** ** The frames of a run *)

Section FrameFacts.

Variable engine : Type.
Variable cava_execute : list Q -> engine -> list Q * engine.
Variable c : config.

(** The log of a run that returns: complete frames, each with its line,
    then the one frame that was cut short, with none. *)
Lemma frame_loop_spec (fuel : nat) :
  forall (st : state engine) (frames : list frame_record) res,
    finished st = false ->
    stat st = StatOk ->
    frame_loop cava_execute c fuel st frames = Some res ->
    exists done last,
      snd res = frames ++ done ++ [last] /\
      Forall (frame_done c) done /\
      frame_broken c last (stat (fst res)).
Proof.
  induction fuel as [|n IH]; intros st frames res Hfin Hstat Hrun; [discriminate|].
  simpl in Hrun. unfold frame_execs in Hrun.
  set (s0 := State _ _ _ _ _ _ _) in Hrun.
  destruct (exec_loop_spec engine cava_execute c
              (Z.to_nat (execs_per_frame c)) 0 s0 Hfin)
    as (new & Hlog & Hres & Hcases).
  set (st1 := exec_loop cava_execute c _ 0 s0) in *.
  simpl in Hlog.
  destruct Hcases as [(Hf & Hlen & Hall & Hst & Hb)
                     | (Hf & fulls & e & Hn & Hlen & Hall & Hsh & Hfe & Hst)].
  - rewrite Hf in Hrun.
    destruct (IH _ _ _ Hf (eq_trans Hst Hstat) Hrun) as (done & last & Hfr & Hdone & Hlast).
    exists (FrameRecord (exec_log st1) (frame_bars st1)
              (Some (print_freq_vals_line c (frame_bars st1))) :: done), last.
    split; [|split].
    + rewrite Hfr, <- app_assoc. reflexivity.
    + constructor; [|exact Hdone].
      unfold frame_done, all_full. simpl. rewrite Hlog.
      repeat split; auto.
      intros b Hlt. rewrite (Hb b Hlt). unfold s0, clear_bars. simpl.
      rewrite nth_repeat. ring.
    + exact Hlast.
  - rewrite Hf in Hrun. injection Hrun as <-.
    exists [], (FrameRecord (exec_log st1) (frame_bars st1) None).
    split; [reflexivity|]. split; [constructor|].
    exists e. unfold cut_short_at. simpl. rewrite Hlog.
    repeat split; auto.
    + exists fulls. repeat split; auto.
    + rewrite Hst. unfold s0. simpl. rewrite Hstat. reflexivity.
Qed.


(** Whatever [generate_spectrum_file] returns has that shape. *)
Lemma generate_spec (fuel : nat) (f : FILE) (p : engine)
    (status : Status) (frames : list frame_record) :
  generate_spectrum_file cava_execute c fuel f p = Some (status, frames) ->
  exists done last,
    frames = done ++ [last] /\
    Forall (frame_done c) done /\
    frame_broken c last status.
Proof.
  unfold generate_spectrum_file.
  set (st0 := State 0%Q f p (clear_bars c) false StatOk []).
  destruct (frame_loop cava_execute c fuel st0 []) as [[st frames']|] eqn:Hloop;
    [|discriminate].
  intros Hrun. injection Hrun as <- <-.
  exact (frame_loop_spec fuel st0 [] (st, frames') eq_refl eq_refl Hloop).
Qed.

End FrameFacts.

(** ** Sample accounting *)

Section Accounting.

Variable c : config.
Hypothesis Hvalid : valid_config c.








End Accounting.

(** ** Progress of the loop *)

Section Progress.

Variable engine : Type.
Variable cava_execute : list Q -> engine -> list Q * engine.
Variable c : config.


Hypothesis Hvalid : valid_config c.





End Progress.

(** * The properties of the specification *)

Ltac valid_config_tac :=
  unfold valid_config; simpl;
  repeat split; try lia; try reflexivity; try (left; reflexivity);
  try (right; reflexivity).

(** ** Frame exec plan *)



(** ** Stereo pairing *)

Lemma Forall_all_execs (P : exec_event -> Prop) (frames : list frame_record) :
  Forall (fun fr => Forall P (execs fr)) frames -> Forall P (all_execs frames).
Proof.
  intros H. unfold all_execs. apply Forall_forall. intros e He.
  apply in_flat_map in He as (fr & Hfr & He).
  rewrite Forall_forall in H. specialize (H fr Hfr).
  rewrite Forall_forall in H. apply H. exact He.
Qed.

Lemma resolved_even (c : config) (e : exec_event) :
  channels c = 2 -> resolved c e -> Z.even (requested e) = true.
Proof.
  intros Hc (read_idx & acc & ->). apply resolve_read_len_even. exact Hc.
Qed.

(** C4. With two channels every read length the loop asks [fread] for,
    after the parity correction and the injection on the last exec, is
    even: in every exec of every frame of every run. *)
Theorem stereo_pairing (engine : Type)
    (cava_execute : list Q -> engine -> list Q * engine)
    (c : config) (fuel : nat) (f : FILE) (p : engine)
    (status : Status) (frames : list frame_record) :
  channels c = 2 ->
  generate_spectrum_file cava_execute c fuel f p = Some (status, frames) ->
  Forall (fun e => Z.even (requested e) = true) (all_execs frames).
Proof.
  intros Hc Hrun.
  destruct (generate_spec engine cava_execute c fuel f p status frames Hrun)
    as (done & last & -> & Hdone & e & _ & Hlast & _).
  apply Forall_all_execs. apply Forall_app. split.
  - eapply Forall_impl; [|exact Hdone].
    intros fr (_ & Hres & _). eapply Forall_impl; [|exact Hres].
    intros ev. apply resolved_even. exact Hc.
  - constructor; [|constructor]. eapply Forall_impl; [|exact Hlast].
    intros ev. apply resolved_even. exact Hc.
Qed.

Lemma stereo_pairing_witness :
  Forall (fun e => Z.even (requested e) = true)
    (all_execs
       [FrameRecord [ExecEvent 3676 3676 false (Some (repeat 0%Q 20))]
          (repeat 0%Q 20) (Some (repeat (Some 0) 10));
        FrameRecord [ExecEvent 3676 324 false None] (repeat 0%Q 20) None]).
Proof.
  apply (stereo_pairing unit (silent_engine config_24fps) config_24fps 5
           (silence 4000) tt StatOk).
  - reflexivity.
  - vm_compute. reflexivity.
Defined.

(** ** Parity correction *)

(** C10. With two channels, an exec whose computed length is odd has it
    adjusted by +1 at an even exec index and by -1 at an odd one, and the
    same adjustment is subtracted from the balance; and for two odd-length
    corrections with no other between them the adjustments add up to zero. *)
Theorem parity_correction_self_balancing (c : config) (read_idx : Z) (acc : Q) :
  valid_config c ->
  channels c = 2 ->
  Z.odd (base_read_len c read_idx) = true ->
  let offset := if Z.even read_idx then 1 else -1 in
  parity_correct c read_idx (base_read_len c read_idx, acc)
    = (base_read_len c read_idx + offset, (acc - inject_Z offset)%Q) /\
  forall next_idx,
    read_idx < next_idx ->
    Z.odd (base_read_len c next_idx) = true ->
    (forall k, read_idx < k < next_idx -> Z.odd (base_read_len c k) = false) ->
    offset + (if Z.even next_idx then 1 else -1) = 0.
Proof.
  intros Hvalid Hc Ho offset. subst offset.
  rewrite <- !parity_offset_even. split.
  - apply parity_correct_odd; assumption.
  - intros next_idx Hlt Hnext Hbetween.
    destruct (Z.eq_dec next_idx (read_idx + 1)) as [-> | Hne].
    + rewrite <- parity_offset_even. apply parity_offset_succ.
    + exfalso.
      pose proof (odd_base_contiguous c Hvalid read_idx (read_idx + 1) next_idx
                    ltac:(lia) Ho Hnext) as Hmid.
      rewrite Hbetween in Hmid by lia. discriminate.
Qed.

Lemma parity_correction_self_balancing_witness :
  parity_correct config_81913 1 (base_read_len config_81913 1, 0%Q)
    = (8191 + -1, (0 - inject_Z (-1))%Q) /\
  -1 + 1 = 0.
Proof.
  assert (valid_config config_81913) as Hvalid by valid_config_tac.
  destruct (parity_correction_self_balancing config_81913 1 0%Q Hvalid
              eq_refl eq_refl) as [Hfix Hpair].
  split.
  - exact Hfix.
  - apply (Hpair 2); [lia | reflexivity | intros k Hk; lia].
Defined.

(** ** The frames of a run *)














(** ** The output line *)


Lemma nth_error_map_seq {A : Type} (f : nat -> A) (n i : nat) :
  (i < n)%nat -> nth_error (map f (seq 0 n)) i = Some (f i).
Proof.
  intros Hi. rewrite nth_error_map.
  rewrite (nth_error_nth' _ 0%nat) by (rewrite length_seq; exact Hi).
  rewrite seq_nth by exact Hi. reflexivity.
Qed.



(** ** Where the program departs from the specification *)

(** C1. Stereo input at 24 frames a second has 3675 samples in a frame.
    The one exec of a frame has index 0, so its odd length is made even
    by +1 in every frame, and the balance, which only ever releases
    samples when it reaches [channels], sinks by one each frame.  After ten
    frames the reads add up to 36760 samples, ten more than the 36750 the
    frames stand for. *)
Theorem no_drift_fails_at_24fps :
  valid_config config_24fps /\
  channels config_24fps = 2 /\
  exists status frames,
    generate_spectrum_file (silent_engine config_24fps) config_24fps 20
      (silence 40000) tt = Some (status, frames) /\
    length (firstn 10 frames) = 10%nat /\
    Forall (all_full config_24fps) (firstn 10 frames) /\
    requested_total (all_execs (firstn 10 frames)) = 36760 /\
    Qfloor (inject_Z 10 * samples_per_frame config_24fps) = 36750.
Proof.
  split; [valid_config_tac|]. split; [reflexivity|].
  eexists. eexists. split; [vm_compute; reflexivity|].
  split; [reflexivity|]. split; [|split; reflexivity].
  repeat constructor.
Qed.

(** C2. Stereo input at 81913 Hz and 4 frames a second has 40956.5
    samples in a frame, read by five execs of base length 8191.  The last
    exec has an even index, so its length is made 8192, the whole block;
    the half sample a frame brings the balance to 2 in the fourth frame,
    and the last exec of that frame asks for 8194 samples, two more than
    the buffers hold. *)
Theorem read_len_exceeds_input_len :
  valid_config config_81913 /\
  input_len config_81913 = 8192 /\
  fst (resolve_read_len config_81913 4 (5 # 2)) = 8194 /\
  exists status frames fr,
    generate_spectrum_file (silent_engine config_81913) config_81913 20
      (silence 170000) tt = Some (status, frames) /\
    nth_error frames 3 = Some fr /\
    all_full config_81913 fr /\
    map requested (execs fr) = [8192; 8190; 8192; 8190; 8194].
Proof.
  split; [valid_config_tac|]. split; [reflexivity|]. split; [reflexivity|].
  eexists. eexists. eexists. split; [vm_compute; reflexivity|].
  split; [reflexivity|]. split; [|reflexivity].
  split; [reflexivity|]. repeat constructor.
Qed.

(** C3. With mono input the accumulator has [bars_per_channel] entries,
    but [print_freq_vals_line] still reads the entries of a second
    channel: position 0 of the line reads index 10 of a vector of length
    10, and no integer of the line has a defined value. *)
Theorem print_reads_past_accumulator_mono :
  valid_config config_mono /\
  bars_total config_mono = 10 /\
  bar_indices config_mono 0 = [0%nat; 10%nat] /\
  In 10%nat (accessed_indices config_mono) /\
  print_freq_vals_line config_mono (clear_bars config_mono) = repeat None 10 /\
  exists status frames fr,
    generate_spectrum_file (silent_engine config_mono) config_mono 20
      (silence 2000) tt = Some (status, frames) /\
    nth_error frames 0 = Some fr /\
    length (bars fr) = 10%nat /\
    emitted fr = Some (repeat None 10).
Proof.
  split; [valid_config_tac|]. split; [reflexivity|]. split; [reflexivity|].
  split; [vm_compute; tauto|]. split; [reflexivity|].
  eexists. eexists. eexists. split; [vm_compute; reflexivity|].
  repeat split.
Qed.

(** * Further properties of the scheduler *)

(** ** The run follows the schedule *)

Lemma Zsum_app (l1 l2 : list Z) : Zsum (l1 ++ l2) = Zsum l1 + Zsum l2.
Proof.
  unfold Zsum. induction l1 as [|x l1 IH]; simpl; [reflexivity|].
  rewrite IH. lia.
Qed.

Lemma Zsum_cons (x : Z) (l : list Z) : Zsum (x :: l) = x + Zsum l.
Proof. reflexivity. Qed.



Lemma exec_schedule_length (c : config) (todo : nat) :
  forall read_idx acc, length (fst (exec_schedule c todo read_idx acc)) = todo.
Proof.
  induction todo as [|k IH]; intros read_idx acc; simpl; [reflexivity|].
  destruct (resolve_read_len c read_idx acc) as [read_len acc1].
  specialize (IH (read_idx + 1) acc1).
  destruct (exec_schedule c k (read_idx + 1) acc1) as [rest acc2].
  simpl in *. congruence.
Qed.




Section ScheduleFacts.

Variable engine : Type.
Variable cava_execute : list Q -> engine -> list Q * engine.
Variable c : config.





End ScheduleFacts.

(** ** The samples of a frame and the balance *)

Section Drift.

Variable c : config.
Hypothesis Hvalid : valid_config c.





(** *** The adjustments of a frame *)








(** *** The balance over the frames *)









End Drift.

(** ** Runs against the schedule *)






Section RunFacts.

Variable engine : Type.
Variable cava_execute : list Q -> engine -> list Q * engine.
Variable c : config.
Hypothesis Hvalid : valid_config c.



End RunFacts.

(** ** Properties of the schedule and of the runs *)




















(** ** The read lengths and the buffers *)










(** ** The parity test *)

(** X22. [is_odd] tells the parity of its argument, also of a negative
    one, for which [num % 2] is -1; and the parity it finds for a length
    that went through [size_t] and back to [int] is that of the length. *)
Theorem is_odd_reports_parity (num : Z) :
  is_odd num = Z.odd num /\
  is_odd (Num.to_int (Num.to_size_t num)) = Z.odd num /\
  is_odd (Num.to_int num) = Z.odd num.
Proof.
  rewrite !is_odd_odd, !odd_to_int, odd_to_size_t. repeat split.
Qed.

(** ** The accumulator and the lines *)

Section BarsFacts.

Variable engine : Type.
Variable cava_execute : list Q -> engine -> list Q * engine.
Variable c : config.






End BarsFacts.





(** ** How long a run lasts *)







(** ** The header line *)

Lemma flat_map_const {A : Type} (row : list A) (n start : nat) :
  flat_map (fun _ : nat => row) (seq start n) = concat (repeat row n).
Proof.
  revert start. induction n as [|n IH]; intros start; [reflexivity|].
  simpl. rewrite IH. reflexivity.
Qed.

Lemma length_concat_repeat {A : Type} (row : list A) (n : nat) :
  length (concat (repeat row n)) = (n * length row)%nat.
Proof.
  induction n as [|n IH]; [reflexivity|].
  simpl. rewrite length_app, IH. reflexivity.
Qed.

Lemma nth_error_concat_repeat {A : Type} (row : list A) (n k i : nat) :
  (k < n)%nat -> (i < length row)%nat ->
  nth_error (concat (repeat row n)) (k * length row + i) = nth_error row i.
Proof.
  revert k. induction n as [|n IH]; intros k Hk Hi; [lia|].
  simpl. destruct k as [|k].
  - simpl. apply nth_error_app1. exact Hi.
  - rewrite nth_error_app2 by (simpl; lia).
    replace (S k * length row + i - length row)%nat with (k * length row + i)%nat
      by (simpl; lia).
    apply IH; [lia | exact Hi].
Qed.

(** X14. With the option [-F] the header line has as many columns as
    every line of values, [bars_per_channel * channels_out], and column
    [ch * bars_per_channel + i] holds the cut-off frequency of bar [i] as
    an integer, the same for every output channel [ch]; without the option
    there is no header line. *)
Theorem header_line_columns (c : config) (freqs fb : list Q) :
  0 <= bars_per_channel c ->
  0 <= channels_out c ->
  print_freq_bands_line false c freqs = None /\
  exists header,
    print_freq_bands_line true c freqs = Some header /\
    length header = length (print_freq_vals_line c fb) /\
    forall ch i,
      (ch < Z.to_nat (channels_out c))%nat ->
      (i < Z.to_nat (bars_per_channel c))%nat ->
      nth_error header (ch * Z.to_nat (bars_per_channel c) + i)
        = Some (option_map Num.double_to_int (nth_error freqs i)).
Proof.
  intros Hb Ho. split; [reflexivity|].
  unfold print_freq_bands_line. rewrite flat_map_const.
  set (row := map (fun i => option_map Num.double_to_int (nth_error freqs i))
                  (seq 0 (Z.to_nat (bars_per_channel c)))).
  assert (length row = Z.to_nat (bars_per_channel c)) as Hrow
    by (unfold row; rewrite length_map, length_seq; reflexivity).
  eexists. split; [reflexivity|]. split.
  - rewrite length_concat_repeat, Hrow.
    unfold print_freq_vals_line, num_bars_out.
    rewrite length_map, length_seq. rewrite Z2Nat.inj_mul by lia. lia.
  - intros ch i Hch Hi. rewrite <- Hrow.
    rewrite nth_error_concat_repeat by (rewrite ?Hrow; assumption).
    unfold row.
    apply (nth_error_map_seq
             (fun j => option_map Num.double_to_int (nth_error freqs j))).
    exact Hi.
Qed.

Lemma header_line_columns_witness :
  print_freq_bands_line false default_config (map inject_Z [50; 100; 200]) = None /\
  exists header,
    print_freq_bands_line true default_config (map inject_Z [50; 100; 200])
      = Some header /\
    length header = length (print_freq_vals_line default_config []) /\
    forall ch i,
      (ch < Z.to_nat (channels_out default_config))%nat ->
      (i < Z.to_nat (bars_per_channel default_config))%nat ->
      nth_error header (ch * Z.to_nat (bars_per_channel default_config) + i)
        = Some (option_map Num.double_to_int
                  (nth_error (map inject_Z [50; 100; 200]) i)).
Proof.
  apply (header_line_columns default_config (map inject_Z [50; 100; 200]) []).
  - vm_compute. discriminate.
  - vm_compute. discriminate.
Defined.

(** ** The command line *)

Module CommandLineFacts.

Import Stdlib.Strings.String Stdlib.Strings.Ascii CommandLine.

Section OptionFacts.

Variable read_int : string -> option Z.
Variable read_double : string -> option Q.
Variable read_int_list : string -> option (list Z).
Variable common_opts : ascii -> ascii -> bool.
Variable can_read : string -> bool.
Variable can_write : string -> bool.

Lemma default_settings_checked : checked default_settings.
Proof.
  unfold checked, default_settings, valid_config, default_config. simpl.
  repeat split; try lia; try (left; reflexivity); try discriminate.
  exists 50, 10000, []. split; [reflexivity | lia].
Qed.

Ltac option_cases H :=
  repeat match type of H with
         | (if ?b then _ else _) = Some _ => destruct b eqn:?
         | match ?x with Some _ => _ | None => _ end = Some _ => destruct x eqn:?
         | match ?l with [] => _ | _ :: _ => _ end = Some _ => destruct l eqn:?
         | None = Some _ => discriminate H
         end.

(** Each option the loop accepts keeps the settings within their ranges. *)
Lemma handle_option_checked (s s1 : settings) (o : getopt_result) :
  checked s ->
  handle_option read_int read_double read_int_list common_opts can_write s o = Some s1 ->
  checked s1.
Proof.
  intros (Hv & Ha & [Hn0 Hn1] & lo & hi & rest & Hcut & Hlo) H.
  destruct Hv as (Hr & Hch & Hf & Hb & Hout).
  unfold handle_option in H. option_cases H;
    injection H as <-; unfold checked, valid_config; simpl;
    repeat match goal with
           | E : (_ || _) = false |- _ => apply orb_false_iff in E as [? ?]
           | E : negb _ = false |- _ => apply negb_false_iff in E
           | E : Qle_bool _ _ = true |- _ => apply Qle_bool_iff in E
           | E : (_ <? _) = false |- _ => apply Z.ltb_ge in E
           | E : (_ <=? _) = false |- _ => apply Z.leb_gt in E
           end;
    repeat split; try assumption; try lia;
    try (left; reflexivity); try (right; reflexivity);
    try (eexists _, _, _; split; [eassumption || reflexivity | lia]);
    (* the frame rate: not at most zero *)
    try (apply Qnot_le_lt; intros Hle; apply Qle_bool_iff in Hle; congruence).
Qed.

Lemma process_options_checked (os : list getopt_result) :
  forall s s1,
    checked s ->
    process_options read_int read_double read_int_list common_opts can_write s os
      = Some s1 ->
    checked s1.
Proof.
  induction os as [|o os IH]; intros s s1 Hs H; simpl in H.
  - injection H as <-. exact Hs.
  - destruct (handle_option _ _ _ _ _ s o) as [s'|] eqn:Ho; [|discriminate].
    apply (IH s' s1); [|exact H].
    eapply handle_option_checked; eassumption.
Qed.

(** X15. Every command line that [process_command_line] accepts leaves a
    valid configuration (rate at least 1, one or two channels, a positive
    frame rate, 2 to 200 bars, one or two output channels), an autosens
    that is not negative, a noise reduction between 0 and 1, and cut-off
    frequencies [1 <= low < high]. *)
Theorem accepted_command_line_checked (os : list getopt_result)
    (args : list string) (s : settings) :
  process_command_line read_int read_double read_int_list common_opts
    can_read can_write os args = Some s ->
  checked s.
Proof.
  unfold process_command_line. intros H.
  destruct (process_options _ _ _ _ _ default_settings os) as [s0|] eqn:Hos;
    [|discriminate].
  pose proof (process_options_checked os _ _ default_settings_checked Hos) as Hs0.
  option_cases H; injection H as <-; exact Hs0.
Qed.

Lemma process_options_app (os1 os2 : list getopt_result) :
  forall s,
    process_options read_int read_double read_int_list common_opts can_write s
      (os1 ++ os2)
    = match process_options read_int read_double read_int_list common_opts
              can_write s os1 with
      | None => None
      | Some s1 =>
          process_options read_int read_double read_int_list common_opts
            can_write s1 os2
      end.
Proof.
  induction os1 as [|o os1 IH]; intros s; simpl; [reflexivity|].
  destruct (handle_option _ _ _ _ _ s o); [apply IH | reflexivity].
Qed.

(** X16. An option with a value out of range ends the program wherever it
    stands on the command line, also when a later option gives the same
    setting a valid value: [-b] outside 2..200, [-R] below 1, [-f] not
    above 0, [-C] other than 1 or 2. *)
Theorem invalid_option_rejected (os1 os2 : list getopt_result)
    (o : getopt_result) (args : list string) :
  common_opts (opt o) (optopt o) = false ->
  (opt o = "b"%char /\
   exists n, read_int (optarg o) = Some n /\ (n < 2 \/ 200 < n)) \/
  (opt o = "R"%char /\ exists n, read_int (optarg o) = Some n /\ n < 1) \/
  (opt o = "f"%char /\ exists x, read_double (optarg o) = Some x /\ (x <= 0)%Q) \/
  (opt o = "C"%char /\ optarg o <> "1"%string /\ optarg o <> "2"%string) ->
  process_command_line read_int read_double read_int_list common_opts
    can_read can_write (os1 ++ o :: os2) args = None.
Proof.
  intros Hcommon Hbad.
  assert (forall s, handle_option read_int read_double read_int_list common_opts
                      can_write s o = None) as Hrej.
  { intros s. unfold handle_option. rewrite Hcommon.
    destruct Hbad as [(-> & n & -> & Hn) | [(-> & n & -> & Hn)
                     | [(-> & x & -> & Hx) | (-> & H1 & H2)]]]; simpl.
    - destruct (Z.ltb_spec n 2), (Z.ltb_spec 200 n); simpl; try reflexivity; lia.
    - destruct (Z.ltb_spec n 1); [reflexivity | lia].
    - apply Qle_bool_iff in Hx. rewrite Hx. reflexivity.
    - apply String.eqb_neq in H1, H2. rewrite H1, H2. reflexivity. }
  unfold process_command_line. rewrite process_options_app.
  destruct (process_options _ _ _ _ _ default_settings os1) as [s1|]; [|reflexivity].
  simpl. rewrite Hrej. reflexivity.
Qed.


End OptionFacts.

Lemma accepted_command_line_checked_witness :
  checked (Settings (Config 44100 2 (25 # 1) 16 2) 0 (1 # 10) false [50; 10000]
             None None).
Proof.
  apply (accepted_command_line_checked example_read_int (fun _ => None)
           (fun _ => None) (fun _ _ => false) (fun _ => true) (fun _ => true)
           [Getopt "b" "?" "16"; Getopt "S" "?" ""] []).
  vm_compute. reflexivity.
Defined.


Lemma invalid_option_rejected_witness :
  process_command_line example_read_int (fun _ => None) (fun _ => None)
    (fun _ _ => false) (fun _ => true) (fun _ => true)
    ([Getopt "S" "?" ""] ++ Getopt "b" "?" "1" :: [Getopt "b" "?" "16"]) [] = None.
Proof.
  apply (invalid_option_rejected example_read_int (fun _ => None) (fun _ => None)
           (fun _ _ => false) (fun _ => true) (fun _ => true)).
  - reflexivity.
  - left. split; [reflexivity|]. exists 1. split; [reflexivity | lia].
Defined.

End CommandLineFacts.

(** ** The earlier scheduler *)

Module LegacyFacts.

Import Legacy.

Lemma input_len_eq : input_len = 1024.
Proof. reflexivity. Qed.

Lemma samples_per_frame_range (framerate : Q) :
  (1 <= framerate)%Q -> 0 <= samples_per_frame framerate <= 88200.
Proof.
  intros Hf. unfold samples_per_frame.
  assert (0 <= inject_Z (rate * channels) / framerate)%Q as H0.
  { apply Qle_shift_div_l; [lra|]. change (inject_Z (rate * channels)) with 88200%Q. lra. }
  rewrite double_to_int_floor by exact H0.
  split.
  - change 0 with (Qfloor 0). apply Qfloor_resp_le. exact H0.
  - rewrite <- (Qfloor_Z 88200). apply Qfloor_resp_le.
    apply Qle_shift_div_r; [lra|]. change (inject_Z (rate * channels)) with 88200%Q.
    change (inject_Z 88200) with 88200%Q. lra.
Qed.

(** For a frame rate of at least 1 the conversions between [int] and
    [size_t] change nothing: the plan is a quotient and its remainder. *)
Lemma plan_eq (framerate : Q) :
  (1 <= framerate)%Q ->
  full_reads framerate = samples_per_frame framerate / 1024 /\
  final_input_len framerate = samples_per_frame framerate mod 1024.
Proof.
  intros Hf. pose proof (samples_per_frame_range framerate Hf) as Hs.
  unfold final_input_len, full_reads. rewrite input_len_eq.
  set (s := samples_per_frame framerate) in *.
  assert (Num.to_size_t s = s) as Hs1
    by (apply to_size_t_small; change (2 ^ 64) with 18446744073709551616; lia).
  rewrite Hs1.
  pose proof (Z.div_pos s 1024 ltac:(lia) ltac:(lia)) as Hq0.
  pose proof (Z.div_le_upper_bound s 1024 87 ltac:(lia) ltac:(lia)) as Hq1.
  assert (forall z, 0 <= z <= 88200 -> Num.to_int z = z) as Hint.
  { intros z Hz. unfold Num.to_int.
    change (2 ^ 31) with 2147483648. change (2 ^ 32) with 4294967296.
    rewrite Z.mod_small by lia. lia. }
  rewrite (Hint (s / 1024)) by lia.
  split; [reflexivity|].
  pose proof (Z.mod_pos_bound s 1024 ltac:(lia)) as Hm.
  pose proof (Z.div_mod s 1024 ltac:(lia)) as Hdm.
  rewrite (to_size_t_small (s / 1024))
    by (change (2 ^ 64) with 18446744073709551616; lia).
  rewrite (to_size_t_small (s / 1024 * 1024))
    by (change (2 ^ 64) with 18446744073709551616; lia).
  replace (s - s / 1024 * 1024) with (s mod 1024) by lia.
  rewrite to_size_t_small by (change (2 ^ 64) with 18446744073709551616; lia).
  apply Hint. lia.
Qed.

Lemma Zsum_map_const (g : nat -> Z) (k : nat) (v : Z) :
  (forall i, (i < k)%nat -> g i = v) ->
  Zsum (map g (seq 0 k)) = Z.of_nat k * v.
Proof.
  induction k as [|k IH]; intros Hg; [reflexivity|].
  rewrite seq_S, map_app, Zsum_app, IH by (intros i Hi; apply Hg; lia).
  simpl map. rewrite Zsum_cons, (Hg k) by lia. change (Zsum []) with 0. lia.
Qed.

Lemma read_len_eq (framerate : Q) (read_idx : Z) :
  (1 <= framerate)%Q ->
  read_len framerate read_idx =
  if (read_idx =? reads_per_frame framerate - 1)
     && negb (samples_per_frame framerate mod 1024 =? 0)
  then samples_per_frame framerate mod 1024
  else 1024.
Proof.
  intros Hf. destruct (plan_eq framerate Hf) as [_ Hfin].
  unfold read_len. rewrite Hfin, input_len_eq.
  destruct (_ && _); [|reflexivity].
  apply to_size_t_small.
  pose proof (Z.mod_pos_bound (samples_per_frame framerate) 1024 ltac:(lia)).
  change (2 ^ 64) with 18446744073709551616. lia.
Qed.

Lemma legacy_frame_reads_total (framerate : Q) :
  (1 <= framerate)%Q ->
  final_input_len framerate <> 1 ->
  Zsum (frame_reads framerate) = samples_per_frame framerate.
Proof.
  intros Hf Hne. destruct (plan_eq framerate Hf) as [Hq Hfin].
  pose proof (samples_per_frame_range framerate Hf) as Hs.
  rewrite Hfin in Hne.
  set (s := samples_per_frame framerate) in *.
  pose proof (Z.mod_pos_bound s 1024 ltac:(lia)) as Hm.
  pose proof (Z.div_mod s 1024 ltac:(lia)) as Hdm.
  pose proof (Z.div_pos s 1024 ltac:(lia) ltac:(lia)) as Hq0.
  assert (reads_per_frame framerate = s / 1024 + Num.of_bool (1 <? s mod 1024)) as Hn
    by (unfold reads_per_frame; rewrite Hq, Hfin; reflexivity).
  unfold frame_reads. rewrite Hn.
  destruct (Z.ltb_spec 1 (s mod 1024)) as [Hbig | Hsmall].
  - change (Num.of_bool true) with 1 in *.
    replace (Z.to_nat (s / 1024 + 1)) with (S (Z.to_nat (s / 1024))) by lia.
    rewrite seq_S, map_app, Zsum_app.
    rewrite (Zsum_map_const _ _ 1024).
    + simpl map. rewrite Zsum_cons. change (Zsum []) with 0.
      rewrite read_len_eq, Hn by exact Hf. fold s.
      rewrite (proj2 (Z.eqb_eq _ _)) by lia.
      rewrite (proj2 (Z.eqb_neq (s mod 1024) 0)) by lia.
      cbn [andb negb]. lia.
    + intros i Hi. rewrite read_len_eq, Hn by exact Hf. fold s.
      rewrite (proj2 (Z.eqb_neq (Z.of_nat i) _)) by lia.
      reflexivity.
  - change (Num.of_bool false) with 0 in *.
    rewrite Z.add_0_r. rewrite (Zsum_map_const _ _ 1024).
    + lia.
    + intros i Hi. rewrite read_len_eq by exact Hf. fold s.
      rewrite (proj2 (Z.eqb_eq (s mod 1024) 0)) by lia.
      rewrite andb_false_r. reflexivity.
Qed.

(** X17. In the earlier scheduler, for a frame rate of at least 1 and a
    last partial block that is not of one sample, every read of a frame
    has between 1 and [input_len] samples, and the reads of a frame add up
    to [samples_per_frame] exactly. *)
Theorem legacy_frame_reads_exact (framerate : Q) :
  (1 <= framerate)%Q ->
  final_input_len framerate <> 1 ->
  Zsum (frame_reads framerate) = samples_per_frame framerate /\
  Forall (fun r => 1 <= r <= input_len) (frame_reads framerate).
Proof.
  intros Hf Hne. split; [apply legacy_frame_reads_total; assumption|].
  pose proof (samples_per_frame_range framerate Hf) as Hs.
  set (s := samples_per_frame framerate) in *.
  pose proof (Z.mod_pos_bound s 1024 ltac:(lia)) as Hm.
  unfold frame_reads. apply Forall_forall. intros r Hr.
  apply in_map_iff in Hr as (i & <- & _).
  rewrite read_len_eq, input_len_eq by exact Hf. fold s.
  destruct (Z.of_nat i =? _); simpl; [|lia].
  destruct (Z.eqb_spec (s mod 1024) 0); simpl; lia.
Qed.

Lemma legacy_frame_reads_exact_witness :
  Zsum (frame_reads (25 # 1)) = samples_per_frame (25 # 1) /\
  Forall (fun r => 1 <= r <= input_len) (frame_reads (25 # 1)).
Proof.
  apply (legacy_frame_reads_exact (25 # 1)).
  - vm_compute. discriminate.
  - vm_compute. discriminate.
Defined.

(** X18. In the earlier scheduler, when the last partial block would be
    of exactly one sample, no read is added for it, and the last full
    block is read as one sample instead: the frame reads a whole block
    less than [samples_per_frame], and nothing at all when the frame is
    that one sample. *)
Theorem legacy_one_sample_block (framerate : Q) :
  (1 <= framerate)%Q ->
  final_input_len framerate = 1 ->
  frame_reads framerate
    = repeat input_len (Z.to_nat (full_reads framerate - 1))
      ++ (if full_reads framerate =? 0 then [] else [1]) /\
  Zsum (frame_reads framerate)
    = if full_reads framerate =? 0 then 0
      else samples_per_frame framerate - input_len.
Proof.
  intros Hf Hone. destruct (plan_eq framerate Hf) as [Hq Hfin].
  pose proof (samples_per_frame_range framerate Hf) as Hs.
  rewrite Hfin in Hone. rewrite Hq, input_len_eq.
  set (s := samples_per_frame framerate) in *.
  pose proof (Z.div_mod s 1024 ltac:(lia)) as Hdm.
  pose proof (Z.div_pos s 1024 ltac:(lia) ltac:(lia)) as Hq0.
  assert (reads_per_frame framerate = s / 1024) as Hn.
  { unfold reads_per_frame. rewrite Hq, Hfin. fold s. rewrite Hone. simpl. lia. }
  assert (frame_reads framerate
          = repeat 1024 (Z.to_nat (s / 1024 - 1))
            ++ (if s / 1024 =? 0 then [] else [1])) as Hreads.
  { unfold frame_reads. rewrite Hn.
    destruct (Z.eqb_spec (s / 1024) 0) as [H0 | H0].
    - rewrite H0. reflexivity.
    - replace (Z.to_nat (s / 1024)) with (S (Z.to_nat (s / 1024 - 1))) by lia.
      rewrite seq_S, map_app. f_equal.
      + set (k := Z.to_nat (s / 1024 - 1)).
        assert (forall i, (i < k)%nat -> read_len framerate (Z.of_nat i) = 1024) as Hg.
        { intros i Hi. rewrite read_len_eq, Hn by exact Hf. fold s.
          replace (Z.of_nat i =? s / 1024 - 1) with false
            by (symmetry; apply Z.eqb_neq; unfold k in Hi; lia).
          reflexivity. }
        clearbody k. clear -Hg. induction k as [|k IH]; [reflexivity|].
        rewrite seq_S, map_app, IH by (intros i Hi; apply Hg; lia).
        simpl map. rewrite (Hg k) by lia.
        change [1024] with (repeat 1024 1). rewrite <- repeat_app.
        rewrite Nat.add_1_r. reflexivity.
      + simpl. rewrite read_len_eq, Hn by exact Hf. fold s.
        replace (Z.of_nat (Z.to_nat (s / 1024 - 1)) =? s / 1024 - 1) with true
          by (symmetry; apply Z.eqb_eq; lia).
        rewrite Hone. reflexivity. }
  split; [exact Hreads|].
  rewrite Hreads, Zsum_app.
  assert (forall k, Zsum (repeat 1024 k) = Z.of_nat k * 1024) as Hrep.
  { induction k as [|k IH]; [reflexivity|].
    simpl repeat. rewrite Zsum_cons, IH. lia. }
  rewrite Hrep.
  destruct (Z.eqb_spec (s / 1024) 0) as [H0 | H0].
  - rewrite H0. reflexivity.
  - rewrite Zsum_cons. change (Zsum []) with 0. lia.
Qed.

Lemma legacy_one_sample_block_witness :
  frame_reads (86 # 1)
    = repeat input_len (Z.to_nat (full_reads (86 # 1) - 1))
      ++ (if full_reads (86 # 1) =? 0 then [] else [1]) /\
  Zsum (frame_reads (86 # 1))
    = if full_reads (86 # 1) =? 0 then 0
      else samples_per_frame (86 # 1) - input_len.
Proof.
  apply (legacy_one_sample_block (86 # 1)).
  - vm_compute. discriminate.
  - reflexivity.
Defined.

Lemma Qsum_scaled (g : nat -> Z) (a b : Q) (l : list nat) :
  (Qsum (map (fun i => inject_Z (g i) / a / b) l)
   == inject_Z (Zsum (map g l)) / a / b)%Q.
Proof.
  induction l as [|i l IH].
  - unfold Qsum, Zsum. simpl. unfold Qdiv. ring.
  - change (Qsum (map (fun i => inject_Z (g i) / a / b) (i :: l)))%Q
      with (inject_Z (g i) / a / b
            + Qsum (map (fun i => inject_Z (g i) / a / b) l))%Q.
    rewrite IH. simpl map. rewrite Zsum_cons, inject_Z_plus.
    unfold Qdiv. ring.
Qed.

(** X19. In the earlier scheduler, under the same conditions and for a
    frame of at least one sample, the weights of the reads of a frame,
    each its share [read_len / input_len] of a block divided by
    [reads_per_frame_exact], add up to exactly 1. *)
Theorem legacy_weights_sum_to_one (framerate : Q) :
  (1 <= framerate)%Q ->
  final_input_len framerate <> 1 ->
  0 < samples_per_frame framerate ->
  (Qsum (frame_weights framerate) == 1)%Q.
Proof.
  intros Hf Hne Hpos.
  pose proof (legacy_frame_reads_total framerate Hf Hne) as Hsum.
  unfold frame_weights, weight, reads_per_frame_exact.
  rewrite (Qsum_scaled (fun i => read_len framerate (Z.of_nat i))).
  fold (frame_reads framerate). rewrite Hsum, input_len_eq.
  assert (0 < inject_Z (samples_per_frame framerate))%Q as Hq
    by (change 0%Q with (inject_Z 0); rewrite <- Zlt_Qlt; exact Hpos).
  change (inject_Z 1024) with 1024%Q. field. lra.
Qed.

Lemma legacy_weights_sum_to_one_witness :
  (Qsum (frame_weights (25 # 1)) == 1)%Q.
Proof.
  apply (legacy_weights_sum_to_one (25 # 1)).
  - vm_compute. discriminate.
  - vm_compute. discriminate.
  - reflexivity.
Defined.

End LegacyFacts.

(** ** The samples the engine sees *)

Section FeedFacts.

Variable engine : Type.
Variable cava_execute : list Q -> engine -> list Q * engine.
Variable c : config.





End FeedFacts.



